(** * wily/state.py: the revision index and the process state

    A shallow embedding of [wily.state] (classes [Index] and [State]) and
    of the Python objects it manipulates, followed by the properties of
    the index (ordering, lookup, membership, persistence) and of the
    process state (archiver scope, cache initialisation). *)

From stdpp Require Import gmap strings list fin_maps.

Local Open Scope string_scope.
Local Open Scope list_scope.

(** ** Python values, exceptions *)

(** The values found in the JSON index files and in the fields of a
    revision: [None], strings, integers and lists of strings (the
    operator names). *)
Inductive pyval : Type :=
  | PNone
  | PStr (s : string)
  | PInt (n : Z)
  | PList (l : list string).

#[global] Instance pyval_eq_dec : EqDecision pyval.
Proof. solve_decision. Defined.

(** Truth value of an object, as tested by [if not x]. *)
Definition truthy (v : pyval) : bool :=
  match v with
  | PNone => false
  | PStr s => negb (String.eqb s "")
  | PInt n => negb (Z.eqb n 0)
  | PList l => negb (Nat.eqb (length l) 0)
  end.

(** Lists are the only unhashable values: they cannot be dictionary keys. *)
Definition hashable (v : pyval) : bool :=
  match v with
  | PList _ => false
  | _ => true
  end.

Inductive exn : Type :=
  | KeyError (k : pyval)
  | TypeError (msg : string)
  | IndexError (msg : string)
  | ArchiverResolutionError (name : string).

#[global] Instance exn_eq_dec : EqDecision exn.
Proof. solve_decision. Defined.

(** A computation that returns or raises. *)
Inductive result (A : Type) : Type :=
  | Ok (a : A)
  | Raise (e : exn).
Arguments Ok {A} a.
Arguments Raise {A} e.

#[global] Instance result_ret : MRet result := fun A a => Ok a.
#[global] Instance result_bind : MBind result := fun A B f m =>
  match m with
  | Ok a => f a
  | Raise e => Raise e
  end.

Definition returns {A} (m : result A) : bool :=
  match m with Ok _ => true | Raise _ => false end.

(** ** Dictionaries *)

(** A JSON object / a [dict] with string keys. *)
Abbreviation entry := (gmap string pyval).

(** [d[k]] on a plain dictionary. *)
Definition dict_getitem (d : entry) (k : string) : result pyval :=
  match d !! k with
  | Some v => Ok v
  | None => Raise (KeyError (PStr k))
  end.

(** [collections.OrderedDict]: the items in insertion order. *)
Definition OrderedDict (V : Type) : Type := list (pyval * V).

Section ordered_dict.
Context {V : Type}.

Definition od_keys (od : OrderedDict V) : list pyval := od.*1.
Definition od_values (od : OrderedDict V) : list V := od.*2.
Definition od_len (od : OrderedDict V) : nat := length od.

Fixpoint od_find (k : pyval) (od : OrderedDict V) : option V :=
  match od with
  | [] => None
  | (k', v) :: rest => if decide (k = k') then Some v else od_find k rest
  end.

(** Assignment keeps the slot of a key that is already present and
    appends a new key at the end. *)
Fixpoint od_assign (k : pyval) (v : V) (od : OrderedDict V) : OrderedDict V :=
  match od with
  | [] => [(k, v)]
  | (k', v') :: rest =>
      if decide (k = k') then (k', v) :: rest
      else (k', v') :: od_assign k v rest
  end.

Definition unhashable : exn := TypeError "unhashable type: 'list'".

(** [od[k] = v] *)
Definition od_setitem (k : pyval) (v : V) (od : OrderedDict V)
  : result (OrderedDict V) :=
  if hashable k then Ok (od_assign k v od) else Raise unhashable.

(** [od[k]] *)
Definition od_getitem (k : pyval) (od : OrderedDict V) : result V :=
  if hashable k then
    match od_find k od with
    | Some v => Ok v
    | None => Raise (KeyError k)
    end
  else Raise unhashable.

(** [k in od] *)
Definition od_contains (k : pyval) (od : OrderedDict V) : result bool :=
  if hashable k then Ok (bool_decide (is_Some (od_find k od)))
  else Raise unhashable.

(** What every dictionary satisfies: keys are hashable and distinct. *)
Definition od_wf (od : OrderedDict V) : Prop :=
  NoDup (od_keys od) ∧ Forall (λ k, hashable k = true) (od_keys od).
End ordered_dict.

(** ** Collaborators of the module *)

(** Modelled from the spec: [wily.archivers.Revision], a record with a key
    (the revision identifier), author name, author email, date and
    message. It is a dataclass, its fields hold whatever they are given. *)
Record Revision : Type := {
  key : pyval;
  author_name : pyval;
  author_email : pyval;
  date : pyval;
  message : pyval;
}.

#[global] Instance Revision_eq_dec : EqDecision Revision.
Proof. solve_decision. Defined.

(** [dataclasses.asdict] on a revision: one item per field, under the
    field's name. *)
Definition asdict (r : Revision) : entry :=
  <["key" := key r]>
    (<["author_name" := author_name r]>
      (<["author_email" := author_email r]>
        (<["date" := date r]>
          (<["message" := message r]> ∅)))).

(** Modelled from the spec: an archiver object, of which only the [name]
    attribute is used. *)
Record Archiver : Type := { name : string }.

#[global] Instance Archiver_eq_dec : EqDecision Archiver.
Proof. solve_decision. Defined.

(** Modelled from the spec: the interface of the cache store, [wily.cache];
    [world] is the state of the storage the configuration points to.
    [has_index], [get_index] and [store_index] read and write the persisted
    entry list of one archiver, [list_archivers] reports the known archiver
    names, [exists_] and [create] check and create the backing location. *)
Class Cache (WilyConfig world : Type) : Type := {
  exists_ : WilyConfig → world → bool;
  create : WilyConfig → world → world;
  has_index : WilyConfig → string → world → bool;
  get_index : WilyConfig → string → world → list entry;
  store_index : WilyConfig → Archiver → list entry → world → world;
  list_archivers : WilyConfig → world → list string;
}.

(** Modelled from the spec: what the cache store promises. [store_index]
    replaces the persisted list of the archiver as a whole and keeps its
    order; [create] makes the backing location exist. *)
Class CacheLaws (WilyConfig world : Type) `{!Cache WilyConfig world} : Prop := {
  has_index_store_index cfg a d w :
    has_index cfg (name a) (store_index cfg a d w) = true;
  get_index_store_index cfg a d w :
    get_index cfg (name a) (store_index cfg a d w) = d;
  exists_create cfg w :
    exists_ cfg (create cfg w) = true;
}.

(** ** class Index *)

Module Index.
Section index.
Context {WilyConfig world : Type} `{!Cache WilyConfig world}.

Record t : Type := {
  config : WilyConfig;
  archiver : Archiver;
  data : list entry;
  operators : pyval;
  _revisions : OrderedDict Revision;
}.

(** [Index.add]: [self._revisions[revision.key] = revision] *)
Definition add (self : t) (revision : Revision) : result t :=
  revs ← od_setitem (key revision) revision (_revisions self);
  mret {| config := config self; archiver := archiver self;
          data := data self; operators := operators self;
          _revisions := revs |}.

(** One round of the loop of [__init__] over the cached entry [d]. *)
Definition load_entry (self : t) (d : entry) : result t :=
  ops ← (if negb (truthy (operators self))
         then dict_getitem d "operators"
         else mret (operators self));
  k ← dict_getitem d "revision";
  an ← dict_getitem d "author_name";
  ae ← dict_getitem d "author_email";
  dt ← dict_getitem d "date";
  msg ← dict_getitem d "message";
  add {| config := config self; archiver := archiver self;
         data := data self; operators := ops;
         _revisions := _revisions self |}
      {| key := k; author_name := an; author_email := ae;
         date := dt; message := msg |}.

(** [for d in self.data: ...] *)
Fixpoint load (self : t) (entries : list entry) : result t :=
  match entries with
  | [] => mret self
  | d :: rest => self' ← load_entry self d; load self' rest
  end.

(** [Index.__init__]. [blank] is the instance when the loop starts: the
    class attribute [operators = None] is what it reads until the loop
    assigns it. *)
Definition blank (cfg : WilyConfig) (a : Archiver) (cached : list entry) : t :=
  {| config := cfg; archiver := a; data := cached;
     operators := PNone; _revisions := [] |}.

Definition __init__ (cfg : WilyConfig) (a : Archiver) (w : world) : result t :=
  let cached :=
    if has_index cfg (name a) w then get_index cfg (name a) w else [] in
  load (blank cfg a cached) cached.

(** [Index.__len__] *)
Definition __len__ (self : t) : nat := od_len (_revisions self).

(** [Index.revisions] *)
Definition revisions (self : t) : list Revision := od_values (_revisions self).

(** [Index.revision_keys] *)
Definition revision_keys (self : t) : list pyval := od_keys (_revisions self).

(** The argument of [__contains__]: any object, a [Revision] instance
    or a plain value. *)
Inductive item : Type :=
  | ARevision (r : Revision)
  | AValue (v : pyval).

(** [Index.__contains__] *)
Definition __contains__ (self : t) (i : item) : result bool :=
  match i with
  | ARevision r => od_contains (key r) (_revisions self)
  | AValue (PStr s) => od_contains (PStr s) (_revisions self)
  | AValue _ => Raise (TypeError "Invalid type for __contains__ in Index.")
  end.

(** [Index.__getitem__] *)
Definition __getitem__ (self : t) (index : pyval) : result Revision :=
  od_getitem index (_revisions self).

(** [Index.save]: the new state of the cache store. *)
Definition save (self : t) (w : world) : world :=
  let data := asdict <$> od_values (_revisions self) in
  store_index (config self) (archiver self) data w.
End index.
Arguments t : clear implicits.
End Index.

(** ** class State *)

(** What [ensure_exists] does to its collaborators, in order. *)
Inductive event : Type :=
  | LoggerDebug (msg : string)
  | CacheCreate.

#[global] Instance event_eq_dec : EqDecision event.
Proof. solve_decision. Defined.

Module State.
Section state.
Context {WilyConfig world : Type} `{!Cache WilyConfig world}.

(** Modelled from the spec: [wily.archivers.resolve_archiver], which
    returns the archiver registered under a name or fails. *)
Variable resolve_archiver : string → result Archiver.

Record t : Type := {
  archivers : list string;
  config : WilyConfig;
  index : gmap string (Index.t WilyConfig);
  default_archiver : string;
}.

(** [for archiver in self.archivers: self.index[archiver] = Index(...)],
    starting from the dictionary [acc]. *)
Fixpoint build_index (cfg : WilyConfig) (w : world) (names : list string)
    (acc : gmap string (Index.t WilyConfig))
  : result (gmap string (Index.t WilyConfig)) :=
  match names with
  | [] => mret acc
  | archiver :: rest =>
      a ← resolve_archiver archiver;
      i ← Index.__init__ cfg a w;
      build_index cfg w rest (<[archiver := i]> acc)
  end.

(** [xs[0]] *)
Definition list_first (xs : list string) : result string :=
  match xs with
  | [] => Raise (IndexError "list index out of range")
  | x :: _ => Ok x
  end.

(** [State.__init__] *)
Definition __init__ (cfg : WilyConfig) (archiver : option Archiver) (w : world)
  : result t :=
  let archivers :=
    match archiver with
    | Some a => [name a]
    | None => list_archivers cfg w
    end in
  index ← build_index cfg w archivers ∅;
  default ← list_first archivers;
  mret {| archivers := archivers; config := cfg; index := index;
          default_archiver := default |}.

(** [State.ensure_exists]: the new state of the cache store and the calls
    made on the way. *)
Definition ensure_exists (self : t) (w : world) : world * list event :=
  if negb (exists_ (config self) w) then
    (create (config self) w,
     [LoggerDebug "Wily cache not found, creating."; CacheCreate;
      LoggerDebug "Created wily cache"])
  else (w, []).
End state.
Arguments t : clear implicits.
End State.

(** The number of calls of [cache.create] in a trace. *)
Definition creations (tr : list event) : nat :=
  length (filter (λ e, e = CacheCreate) tr).

(** ** Notions used in the statements *)

(** The revision record the loop of [Index.__init__] builds from an entry,
    when the entry has the five fields it reads. *)
Definition revision_of (d : entry) : option Revision :=
  k ← d !! "revision";
  an ← d !! "author_name";
  ae ← d !! "author_email";
  dt ← d !! "date";
  msg ← d !! "message";
  Some {| key := k; author_name := an; author_email := ae;
          date := dt; message := msg |}.

(** An entry as the cache store documents it: the five revision fields,
    with a hashable revision identifier, and an operator set. *)
Definition loadable (d : entry) : bool :=
  match d !! "operators", revision_of d with
  | Some _, Some r => hashable (key r)
  | _, _ => false
  end.

(** A sequence of calls of [Index.add]. *)
Fixpoint add_all {C : Type} (self : Index.t C) (revs : list Revision)
  : result (Index.t C) :=
  match revs with
  | [] => mret self
  | r :: rest => self' ← Index.add self r; add_all self' rest
  end.

(** The operators tag after one more entry: kept once it is truthy. *)
Definition tag (ops : pyval) (d : entry) : pyval :=
  if truthy ops then ops else default PNone (d !! "operators").

(** The dictionary after [od[r.key] = r] for each [r] in turn. *)
Definition assign_all (od : OrderedDict Revision) (rs : list Revision)
  : OrderedDict Revision :=
  foldl (λ od r, od_assign (key r) r od) od rs.

Definition item_of (r : Revision) : pyval * Revision := (key r, r).

(** Whether a value is a [str]. *)
Definition is_str (v : pyval) : bool :=
  match v with PStr _ => true | _ => false end.

(** Whether an [Index] can be built for the archiver name [n]: the name
    resolves and the cached entries of the resolved archiver load. *)
Definition constructible {WilyConfig world : Type} `{!Cache WilyConfig world}
    (resolve_archiver : string → result Archiver)
    (cfg : WilyConfig) (w : world) (n : string) : bool :=
  match resolve_archiver n with
  | Ok a => returns (Index.__init__ cfg a w)
  | Raise _ => false
  end.

(** Each record of the dictionary sits under its own key. *)
Definition keyed (od : OrderedDict Revision) : Prop :=
  Forall (λ kr : pyval * Revision, kr.1 = key kr.2) od.

(** The elements of [l] that are neither in [seen] nor earlier in [l], in
    the order of [l]. *)
Fixpoint unseen (seen l : list pyval) : list pyval :=
  match l with
  | [] => []
  | x :: l =>
      if decide (x ∈ seen) then unseen seen l
      else x :: unseen (seen ++ [x]) l
  end.

(** A list without the repetitions of its elements. *)
Definition first_occurrences (l : list pyval) : list pyval := unseen [] l.

(** The last record of [rs] with the key [k]. *)
Definition last_under (k : pyval) (rs : list Revision) : option Revision :=
  last (filter (λ r, key r = k) rs).

(** Whether the loop of [Index.__init__] gets through the entries when the
    tag is [ops] at its start: an entry needs the five revision fields and
    a hashable identifier, and the [operators] field while the tag is
    falsy. *)
Fixpoint loads (ops : pyval) (entries : list entry) : bool :=
  match entries with
  | [] => true
  | d :: rest =>
      (truthy ops || bool_decide (is_Some (d !! "operators")))
      && match revision_of d with
         | Some r => hashable (key r)
         | None => false
         end
      && loads (tag ops d) rest
  end.

(** The fields [Index.__init__] reads from an entry. *)
Definition entry_fields : list string :=
  ["operators"; "revision"; "author_name"; "author_email"; "date"; "message"].

(** The entry list [Index.__init__] works on. *)
Definition cached {WilyConfig world : Type} `{!Cache WilyConfig world}
    (cfg : WilyConfig) (a : Archiver) (w : world) : list entry :=
  if has_index cfg (name a) w then get_index cfg (name a) w else [].

(** ** A cache store in memory *)

(** Modelled from the spec: a configuration, reduced to the location of
    the cache. *)
Record PathConfig : Type := { cache_path : string }.

(** Modelled from the spec: the state of a cache store, whether its backing
    location exists, the archiver names it knows and the persisted entry
    list of each archiver that has one. *)
Record disk : Type := {
  present : bool;
  known : list string;
  indexes : gmap string (list entry);
}.

Definition disk_store_index (a : Archiver) (d : list entry) (w : disk) : disk :=
  {| present := present w;
     known := if decide (name a ∈ known w) then known w else known w ++ [name a];
     indexes := <[name a := d]> (indexes w) |}.

#[global] Instance disk_cache : Cache PathConfig disk := {
  exists_ _ w := present w;
  create _ w := {| present := true; known := known w; indexes := indexes w |};
  has_index _ n w := bool_decide (is_Some (indexes w !! n));
  get_index _ n w := default [] (indexes w !! n);
  store_index _ a d w := disk_store_index a d w;
  list_archivers _ w := known w;
}.

Definition empty_disk : disk := {| present := true; known := []; indexes := ∅ |}.

(** A persisted entry with the six fields of the index file. *)
Definition persisted (rev an ae dt msg : string) (ops : list string) : entry :=
  <["revision" := PStr rev]>
    (<["author_name" := PStr an]>
      (<["author_email" := PStr ae]>
        (<["date" := PStr dt]>
          (<["message" := PStr msg]>
            (<["operators" := PList ops]> ∅))))).

(** ** Sample data *)

Definition cfg0 : PathConfig := {| cache_path := ".wily" |}.
Definition git : Archiver := {| name := "git" |}.

Definition rev_abc : Revision :=
  {| key := PStr "abc123"; author_name := PStr "A";
     author_email := PStr "a@x.com"; date := PStr "2024-01-01";
     message := PStr "init" |}.

Definition rev_def : Revision :=
  {| key := PStr "def456"; author_name := PStr "B";
     author_email := PStr "b@x.com"; date := PStr "2024-01-02";
     message := PStr "second" |}.

(** [rev_abc] under the same key with another message. *)
Definition rev_abc' : Revision :=
  {| key := PStr "abc123"; author_name := PStr "A";
     author_email := PStr "a@x.com"; date := PStr "2024-01-03";
     message := PStr "amended" |}.

(** An index that holds nothing and one that holds two revisions. *)
Definition idx_empty : Index.t PathConfig :=
  {| Index.config := cfg0; Index.archiver := git; Index.data := [];
     Index.operators := PNone; Index._revisions := [] |}.

Definition idx_two : Index.t PathConfig :=
  {| Index.config := cfg0; Index.archiver := git; Index.data := [];
     Index.operators := PNone;
     Index._revisions := [item_of rev_abc; item_of rev_def] |}.

Definition disk_of (entries : list entry) : disk :=
  {| present := true; known := ["git"]; indexes := {["git" := entries]} |}.

(** The first entry carries an empty operator list. *)
Definition entries_untagged : list entry :=
  [persisted "abc123" "A" "a@x.com" "2024-01-01" "init" [];
   persisted "def456" "B" "b@x.com" "2024-01-02" "second" ["raw"]].

Definition entries_tagged : list entry :=
  [persisted "abc123" "A" "a@x.com" "2024-01-01" "init" ["raw"; "cyclomatic"];
   persisted "def456" "B" "b@x.com" "2024-01-02" "second" ["raw"]].

(** The key of the first entry comes back in the third. *)
Definition entries_repeated : list entry :=
  [persisted "abc123" "A" "a@x.com" "2024-01-01" "init" ["raw"];
   persisted "def456" "B" "b@x.com" "2024-01-02" "second" ["raw"];
   persisted "abc123" "A" "a@x.com" "2024-01-03" "amended" ["raw"]].



(** Two archivers are known, one of them has an index. *)
Definition disk_git_svn : disk :=
  {| present := true; known := ["git"; "svn"];
     indexes := {["git" := entries_tagged]} |}.

Definition disk_absent : disk :=
  {| present := false; known := []; indexes := ∅ |}.

Definition resolve_git_svn (n : string) : result Archiver :=
  if bool_decide (n ∈ ["git"; "svn"]) then Ok {| name := n |}
  else Raise (ArchiverResolutionError n).

Definition state_git : State.t PathConfig :=
  {| State.archivers := ["git"]; State.config := cfg0; State.index := ∅;
     State.default_archiver := "git" |}.

(** * Properties *)

(** ** Ordered dictionaries *)

Section ordered_dict_facts.
Context {V : Type}.
Implicit Types (od : OrderedDict V) (k : pyval) (v : V).

Lemma od_find_None od k : od_find k od = None ↔ k ∉ od_keys od.
Proof.
  induction od as [|[k' v'] od IH]; simpl.
  - split; [intros _; apply not_elem_of_nil | done].
  - rewrite not_elem_of_cons. destruct (decide (k = k')) as [->|Hne].
    + split; [done | intros [? _]; done].
    + rewrite IH. tauto.
Qed.

Lemma od_find_is_Some od k : is_Some (od_find k od) ↔ k ∈ od_keys od.
Proof.
  rewrite <-not_eq_None_Some, od_find_None.
  destruct (decide (k ∈ od_keys od)); tauto.
Qed.

Lemma od_find_elem_of od k v :
  NoDup (od_keys od) → (k, v) ∈ od → od_find k od = Some v.
Proof.
  induction od as [|[k' v'] od IH]; simpl; intros Hnd Hin.
  - by apply elem_of_nil in Hin.
  - apply NoDup_cons in Hnd as [Hk' Hnd].
    apply elem_of_cons in Hin as [[= <- <-]|Hin].
    + by rewrite decide_True.
    + destruct (decide (k = k')) as [->|Hne]; [|by apply IH].
      destruct Hk'. apply list_elem_of_fmap. by exists (k', v).
Qed.

Lemma od_assign_present od k v :
  k ∈ od_keys od → od_keys (od_assign k v od) = od_keys od.
Proof.
  induction od as [|[k' v'] od IH]; simpl; intros Hin.
  - by apply elem_of_nil in Hin.
  - destruct (decide (k = k')) as [->|Hne]; [done|].
    apply elem_of_cons in Hin as [?|Hin]; [done|].
    simpl. f_equal. by apply IH.
Qed.

Lemma od_assign_absent od k v :
  k ∉ od_keys od → od_assign k v od = od ++ [(k, v)].
Proof.
  induction od as [|[k' v'] od IH]; simpl; intros Hin; [done|].
  apply not_elem_of_cons in Hin as [Hne Hin].
  rewrite decide_False by done. f_equal. by apply IH.
Qed.

Lemma od_find_assign od k v : od_find k (od_assign k v od) = Some v.
Proof.
  induction od as [|[k' v'] od IH]; simpl.
  - by rewrite decide_True.
  - destruct (decide (k = k')) as [->|Hne]; simpl.
    + by rewrite decide_True.
    + by rewrite decide_False.
Qed.

Lemma od_find_assign_ne od k k' v :
  k ≠ k' → od_find k' (od_assign k v od) = od_find k' od.
Proof.
  intros Hne. induction od as [|[k0 v0] od IH]; simpl.
  - by rewrite decide_False.
  - destruct (decide (k = k0)) as [->|Hne0]; simpl.
    + by rewrite !decide_False.
    + by rewrite IH.
Qed.

Lemma od_wf_nil : od_wf ([] : OrderedDict V).
Proof. split; [apply NoDup_nil_2 | apply Forall_nil_2]. Qed.

Lemma od_wf_assign od k v :
  hashable k = true → od_wf od → od_wf (od_assign k v od).
Proof.
  intros Hk [Hnd Hh]. destruct (decide (k ∈ od_keys od)) as [Hin|Hin].
  - unfold od_wf. by rewrite od_assign_present.
  - rewrite od_assign_absent by done. unfold od_wf, od_keys.
    rewrite fmap_app. simpl. split.
    + apply NoDup_app. split; [done|]. split; [|apply NoDup_singleton].
      intros x Hx ->%list_elem_of_singleton. done.
    + apply Forall_app. split; [done|]. by apply Forall_singleton.
Qed.
End ordered_dict_facts.

(** ** Loading and adding *)

Section index_facts.
Context {WilyConfig world : Type} `{!Cache WilyConfig world}.
Implicit Types (self idx : Index.t WilyConfig) (d : entry) (r : Revision).

Lemma add_hashable self r :
  hashable (key r) = true →
  Index.add self r =
    Ok {| Index.config := Index.config self;
          Index.archiver := Index.archiver self;
          Index.data := Index.data self;
          Index.operators := Index.operators self;
          Index._revisions := od_assign (key r) r (Index._revisions self) |}.
Proof. intros Hk. unfold Index.add, od_setitem. by rewrite Hk. Qed.

Lemma add_unhashable self r :
  hashable (key r) = false → Index.add self r = Raise unhashable.
Proof. intros Hk. unfold Index.add, od_setitem. by rewrite Hk. Qed.

Lemma loadable_inv d :
  loadable d = true →
  ∃ r o, revision_of d = Some r ∧ d !! "operators" = Some o
         ∧ hashable (key r) = true.
Proof.
  unfold loadable. destruct (d !! "operators") as [o|]; [|done].
  destruct (revision_of d) as [r|]; [|done]. intros Hk. by exists r, o.
Qed.

Lemma load_entry_loadable self d r :
  loadable d = true → revision_of d = Some r →
  Index.load_entry self d =
    Ok {| Index.config := Index.config self;
          Index.archiver := Index.archiver self;
          Index.data := Index.data self;
          Index.operators := tag (Index.operators self) d;
          Index._revisions := od_assign (key r) r (Index._revisions self) |}.
Proof.
  intros Hd Hr. destruct (loadable_inv d Hd) as (r' & o & Hr' & Ho & Hk).
  assert (r' = r) as -> by congruence. clear Hr'.
  unfold revision_of in Hr. unfold Index.load_entry, tag, dict_getitem.
  rewrite Ho.
  destruct (d !! "revision") as [k|]; [|done].
  destruct (d !! "author_name") as [an|]; [|done].
  destruct (d !! "author_email") as [ae|]; [|done].
  destruct (d !! "date") as [dt|]; [|done].
  destruct (d !! "message") as [msg|]; [|done].
  simpl in Hr. injection Hr as <-. simpl in Hk.
  destruct (truthy (Index.operators self)); simpl;
    unfold Index.add, od_setitem; simpl; by rewrite Hk.
Qed.

Lemma load_loadable self entries :
  forallb loadable entries = true →
  Index.load self entries =
    Ok {| Index.config := Index.config self;
          Index.archiver := Index.archiver self;
          Index.data := Index.data self;
          Index.operators := foldl tag (Index.operators self) entries;
          Index._revisions :=
            assign_all (Index._revisions self) (omap revision_of entries) |}.
Proof.
  revert self. induction entries as [|d entries IH]; intros self Hall.
  - by destruct self.
  - simpl in Hall. apply andb_prop in Hall as [Hd Hall].
    destruct (loadable_inv d Hd) as (r & o & Hr & _ & _).
    simpl. rewrite (load_entry_loadable self d r Hd Hr). simpl.
    rewrite IH by done. simpl. by rewrite Hr.
Qed.

Lemma add_all_hashable self rs :
  forallb (λ r, hashable (key r)) rs = true →
  add_all self rs =
    Ok {| Index.config := Index.config self;
          Index.archiver := Index.archiver self;
          Index.data := Index.data self;
          Index.operators := Index.operators self;
          Index._revisions := assign_all (Index._revisions self) rs |}.
Proof.
  revert self. induction rs as [|r rs IH]; intros self Hall.
  - by destruct self.
  - simpl in Hall. apply andb_prop in Hall as [Hr Hall].
    simpl. rewrite add_hashable by done. simpl. by rewrite IH.
Qed.

Lemma tag_truthy ops entries :
  truthy ops = true → foldl tag ops entries = ops.
Proof.
  intros Hops. induction entries as [|d entries IH]; [done|].
  simpl. unfold tag at 2. by rewrite Hops.
Qed.

Lemma assign_all_distinct (od : OrderedDict Revision) rs :
  NoDup (od_keys od ++ (key <$> rs)) →
  assign_all od rs = od ++ (item_of <$> rs).
Proof.
  revert od. induction rs as [|r rs IH]; intros od Hnd; simpl.
  - by rewrite app_nil_r.
  - assert (key r ∉ od_keys od) as Hr.
    { apply NoDup_app in Hnd as (_ & Hdis & _). intros Hin.
      apply (Hdis _ Hin). simpl. apply elem_of_cons. by left. }
    unfold assign_all. simpl. rewrite od_assign_absent by done.
    fold (assign_all (od ++ [(key r, r)]) rs). rewrite IH.
    + by rewrite <-app_assoc.
    + unfold od_keys. rewrite fmap_app. simpl. rewrite <-app_assoc. done.
Qed.

Lemma assign_all_wf (od : OrderedDict Revision) rs :
  forallb (λ r, hashable (key r)) rs = true → od_wf od →
  od_wf (assign_all od rs).
Proof.
  revert od. induction rs as [|r rs IH]; intros od Hall Hwf; [done|].
  simpl in Hall. apply andb_prop in Hall as [Hr Hall].
  unfold assign_all. simpl. apply IH; [done|]. by apply od_wf_assign.
Qed.

(** Every index that [add] or [__init__] returns is a proper dictionary. *)
Lemma add_wf self r idx :
  Index.add self r = Ok idx →
  od_wf (Index._revisions self) → od_wf (Index._revisions idx).
Proof.
  unfold Index.add, od_setitem.
  destruct (hashable (key r)) eqn:Hk; [|done]. simpl.
  intros [= <-] Hwf. simpl. by apply od_wf_assign.
Qed.

Lemma load_entry_wf self d idx :
  Index.load_entry self d = Ok idx →
  od_wf (Index._revisions self) → od_wf (Index._revisions idx).
Proof.
  unfold Index.load_entry.
  destruct (if negb (truthy (Index.operators self)) then _ else _);
    [|done]. simpl.
  repeat (match goal with
          | |- context [dict_getitem d ?f] =>
              destruct (dict_getitem d f); [|done]; simpl
          end).
  intros Hadd Hwf. by apply (add_wf _ _ _ Hadd).
Qed.

Lemma load_wf self entries idx :
  Index.load self entries = Ok idx →
  od_wf (Index._revisions self) → od_wf (Index._revisions idx).
Proof.
  revert self. induction entries as [|d entries IH]; intros self; simpl.
  - by intros [= <-].
  - destruct (Index.load_entry self d) as [self'|] eqn:Hd; [|done]. simpl.
    intros Hload Hwf. apply (IH _ Hload). by apply (load_entry_wf _ _ _ Hd).
Qed.

Lemma init_wf cfg a w idx :
  Index.__init__ cfg a w = Ok idx → od_wf (Index._revisions idx).
Proof. intros Hinit. apply (load_wf _ _ _ Hinit). apply od_wf_nil. Qed.

Lemma omap_revision_of_loadable entries :
  forallb loadable entries = true →
  forallb (λ r, hashable (key r)) (omap revision_of entries) = true
  ∧ length (omap revision_of entries) = length entries.
Proof.
  induction entries as [|d entries IH]; [done|]. simpl. intros Hall.
  apply andb_prop in Hall as [Hd Hall].
  destruct (loadable_inv d Hd) as (r & o & -> & _ & Hk).
  destruct (IH Hall) as [IH1 IH2]. cbn [mbind option_bind forallb length].
  rewrite Hk. split; [exact IH1 | f_equal; exact IH2].
Qed.
End index_facts.

(** ** Index: adding, looking up, membership *)

Lemma remove_dups_NoDup {A} `{!EqDecision A} (l : list A) :
  NoDup l → remove_dups l = l.
Proof.
  induction 1 as [|x l Hx Hnd IH]; [done|]. simpl.
  destruct (decide_rel _ x l); [done|]. by rewrite IH.
Qed.

Section index_claims.
Context {WilyConfig world : Type} `{!Cache WilyConfig world}.
Implicit Types (self idx : Index.t WilyConfig) (d : entry) (r : Revision).

(** C3: adding revisions with pairwise distinct keys to an empty index
    succeeds, the length of the index is then the number of distinct keys
    added and [revision_keys] lists the keys in the order of insertion. *)
Theorem add_distinct_keys_in_order self rs :
  Index._revisions self = [] →
  NoDup (key <$> rs) →
  forallb (λ r, hashable (key r)) rs = true →
  ∃ idx, add_all self rs = Ok idx
    ∧ Index.__len__ idx = length (remove_dups (key <$> rs))
    ∧ Index.revision_keys idx = key <$> rs.
Proof.
  intros Hempty Hnd Hall. eexists. split; [by apply add_all_hashable|].
  unfold Index.__len__, Index.revision_keys, od_len, od_keys. simpl.
  rewrite Hempty, assign_all_distinct by done. simpl.
  rewrite remove_dups_NoDup by done. rewrite !length_fmap.
  split; [done|]. rewrite <-list_fmap_compose. done.
Qed.

(** C4: adding a revision under a key the index already holds leaves
    [revision_keys] as it was, so the key keeps its position, and
    [__getitem__] on that key then returns the record just added. *)
Theorem add_existing_key_in_place self r :
  od_wf (Index._revisions self) →
  key r ∈ Index.revision_keys self →
  ∃ idx, Index.add self r = Ok idx
    ∧ Index.revision_keys idx = Index.revision_keys self
    ∧ Index.__getitem__ idx (key r) = Ok r.
Proof.
  intros [_ Hh] Hin.
  assert (hashable (key r) = true) as Hk.
  { rewrite Forall_forall in Hh. by apply Hh. }
  eexists. split; [by apply add_hashable|].
  unfold Index.revision_keys, Index.__getitem__, od_getitem. simpl.
  rewrite od_assign_present by done. rewrite Hk, od_find_assign. done.
Qed.

(** C6: membership of a key string and of a revision record with that key
    give the same boolean, which tells whether the key is indexed; any
    value that is neither a string nor a revision raises [TypeError]. *)
Theorem contains_key_record_or_TypeError self (k : string) r v :
  key r = PStr k →
  is_str v = false →
  Index.__contains__ self (Index.AValue (PStr k))
    = Ok (bool_decide (PStr k ∈ Index.revision_keys self))
  ∧ Index.__contains__ self (Index.ARevision r)
    = Index.__contains__ self (Index.AValue (PStr k))
  ∧ Index.__contains__ self (Index.AValue v)
    = Raise (TypeError "Invalid type for __contains__ in Index.").
Proof.
  intros Hr Hv. split; [|split].
  - unfold Index.__contains__, od_contains. simpl. f_equal.
    apply bool_decide_ext, od_find_is_Some.
  - simpl. by rewrite Hr.
  - by destruct v.
Qed.

(** C7: [__getitem__] on a key of the index returns the record stored
    under it; on a key the index does not hold it raises [KeyError], so
    no default comes back. *)
Theorem getitem_stored_or_KeyError self k :
  od_wf (Index._revisions self) →
  hashable k = true →
  (∀ r, (k, r) ∈ Index._revisions self → Index.__getitem__ self k = Ok r)
  ∧ (k ∉ Index.revision_keys self →
     Index.__getitem__ self k = Raise (KeyError k)).
Proof.
  intros [Hnd _] Hk. unfold Index.__getitem__, od_getitem. rewrite Hk.
  split.
  - intros r Hin. by rewrite (od_find_elem_of _ _ r Hnd Hin).
  - intros Hout. apply od_find_None in Hout. by rewrite Hout.
Qed.
End index_claims.

Ltac by_computation := apply (bool_decide_unpack _); vm_compute; reflexivity.

Lemma add_distinct_keys_in_order_witness :
  ∃ idx, add_all idx_empty [rev_abc; rev_def] = Ok idx
    ∧ Index.__len__ idx = 2
    ∧ Index.revision_keys idx = [PStr "abc123"; PStr "def456"].
Proof.
  apply (add_distinct_keys_in_order idx_empty [rev_abc; rev_def]).
  - reflexivity.
  - by_computation.
  - reflexivity.
Defined.

Lemma add_existing_key_in_place_witness :
  ∃ idx, Index.add idx_two rev_abc' = Ok idx
    ∧ Index.revision_keys idx = [PStr "abc123"; PStr "def456"]
    ∧ Index.__getitem__ idx (PStr "abc123") = Ok rev_abc'.
Proof.
  apply (add_existing_key_in_place idx_two rev_abc').
  - by_computation.
  - by_computation.
Defined.

Lemma contains_key_record_or_TypeError_witness :
  Index.__contains__ idx_two (Index.AValue (PStr "abc123")) = Ok true
  ∧ Index.__contains__ idx_two (Index.ARevision rev_abc')
    = Index.__contains__ idx_two (Index.AValue (PStr "abc123"))
  ∧ Index.__contains__ idx_two (Index.AValue (PInt 7))
    = Raise (TypeError "Invalid type for __contains__ in Index.").
Proof.
  apply (contains_key_record_or_TypeError idx_two "abc123" rev_abc' (PInt 7));
    reflexivity.
Defined.

Lemma getitem_stored_or_KeyError_witness :
  Index.__getitem__ idx_two (PStr "def456") = Ok rev_def
  ∧ Index.__getitem__ idx_two (PStr "0000") = Raise (KeyError (PStr "0000")).
Proof.
  split.
  - apply (getitem_stored_or_KeyError idx_two (PStr "def456"));
      [by_computation | reflexivity | by_computation].
  - apply (getitem_stored_or_KeyError idx_two (PStr "0000"));
      [by_computation | reflexivity | by_computation].
Defined.

(** ** Index: loading from the cache store *)

#[global] Instance disk_laws : CacheLaws PathConfig disk.
Proof.
  split.
  - intros cfg a d w. simpl. apply bool_decide_eq_true.
    rewrite lookup_insert_eq. by eexists.
  - intros cfg a d w. simpl. by rewrite lookup_insert_eq.
  - done.
Qed.

Lemma revision_of_key (d : entry) r :
  revision_of d = Some r → d !! "revision" = Some (key r).
Proof.
  unfold revision_of. destruct (d !! "revision") as [k|]; [|done]. simpl.
  destruct (d !! "author_name"); [|done]. simpl.
  destruct (d !! "author_email"); [|done]. simpl.
  destruct (d !! "date"); [|done]. simpl.
  destruct (d !! "message"); [|done]. simpl. by intros [= <-].
Qed.

Lemma loadable_fields (entries : list entry) :
  forallb loadable entries = true →
  revision_of <$> entries = Some <$> omap revision_of entries
  ∧ (λ d : entry, d !! "revision") <$> entries
    = Some <$> (key <$> omap revision_of entries).
Proof.
  induction entries as [|d entries IH]; [done|]. simpl. intros Hall.
  apply andb_prop in Hall as [Hd Hall].
  destruct (loadable_inv d Hd) as (r & o & Hr & _ & _).
  destruct (IH Hall) as [IH1 IH2]. rewrite (revision_of_key d r Hr), Hr.
  split; simpl; f_equal; [exact IH1 | exact IH2].
Qed.

Lemma forallb_take {A} (f : A → bool) (l : list A) n :
  forallb f l = true → forallb f (take n l) = true.
Proof.
  revert n. induction l as [|x l IH]; intros [|n]; simpl; try done.
  intros [-> Hl]%andb_prop. simpl. by apply IH.
Qed.

Lemma asdict_operators r : asdict r !! "operators" = None.
Proof. done. Qed.

Section loading_claims.
Context {WilyConfig world : Type} `{!Cache WilyConfig world}.
Implicit Types (self idx : Index.t WilyConfig) (d : entry) (r : Revision).

(** C1: an index that holds at least one revision cannot be read back
    after [save]: the saved items have no [operators] key (nor a
    [revision] key), which [__init__] reads from the first entry. *)
Theorem save_then_init_raises `{!CacheLaws WilyConfig world} self w :
  Index._revisions self ≠ [] →
  Index.__init__ (Index.config self) (Index.archiver self) (Index.save self w)
  = Raise (KeyError (PStr "operators")).
Proof.
  intros Hne. unfold Index.__init__, Index.save.
  rewrite has_index_store_index, get_index_store_index.
  destruct (Index._revisions self) as [|[k r] od]; [done|]. simpl.
  unfold Index.load_entry, dict_getitem. simpl.
  by rewrite asdict_operators.
Qed.

(** C2: when the first cached entry carries a truthy operator set, the
    index has that set as its tag after every round of the load and at
    the end of [__init__]: no later entry overwrites it. *)
Theorem init_operators_first_truthy cfg a w d0 rest v :
  has_index cfg (name a) w = true →
  get_index cfg (name a) w = d0 :: rest →
  forallb loadable (d0 :: rest) = true →
  d0 !! "operators" = Some v →
  truthy v = true →
  (∃ idx, Index.__init__ cfg a w = Ok idx ∧ Index.operators idx = v)
  ∧ (∀ n, ∃ idx,
       Index.load (Index.blank cfg a (d0 :: rest)) (take (S n) (d0 :: rest))
         = Ok idx
       ∧ Index.operators idx = v).
Proof.
  intros Hhas Hget Hall Hv Htruthy.
  assert (∀ entries, foldl tag PNone (d0 :: entries) = v) as Htag.
  { intros entries. simpl. unfold tag at 2. simpl. rewrite Hv. simpl.
    by apply tag_truthy. }
  split.
  - unfold Index.__init__. rewrite Hhas, Hget. eexists.
    split; [by apply load_loadable|]. simpl Index.operators. apply Htag.
  - intros n. eexists.
    split; [by apply load_loadable, forallb_take|].
    simpl Index.operators. apply Htag.
Qed.

(** C5: when the persisted entries have pairwise distinct revision
    identifiers, [revision_keys] is the list of these identifiers and
    [revisions] the list of the records built from the entries, both in
    the order of the persisted list. *)
Theorem init_keeps_persisted_order cfg a w :
  has_index cfg (name a) w = true →
  forallb loadable (get_index cfg (name a) w) = true →
  NoDup ((λ d : entry, d !! "revision") <$> get_index cfg (name a) w) →
  ∃ idx, Index.__init__ cfg a w = Ok idx
    ∧ Some <$> Index.revision_keys idx
      = (λ d : entry, d !! "revision") <$> get_index cfg (name a) w
    ∧ Some <$> Index.revisions idx
      = revision_of <$> get_index cfg (name a) w.
Proof.
  intros Hhas Hall Hnd. unfold Index.__init__. rewrite Hhas.
  destruct (loadable_fields _ Hall) as [Hrevs Hkeys].
  rewrite Hkeys in Hnd. apply NoDup_fmap_1 in Hnd.
  eexists. split; [by apply load_loadable|].
  unfold Index.revision_keys, Index.revisions, od_keys, od_values. simpl.
  rewrite assign_all_distinct by exact Hnd. simpl.
  rewrite Hrevs, Hkeys. rewrite <-!list_fmap_compose.
  split; f_equal; by apply list_fmap_ext.
Qed.
End loading_claims.

Lemma save_then_init_raises_witness :
  Index.__init__ cfg0 git empty_disk = Ok idx_empty
  ∧ Index.add idx_empty rev_abc
    = Ok {| Index.config := cfg0; Index.archiver := git; Index.data := [];
            Index.operators := PNone;
            Index._revisions := [item_of rev_abc] |}
  ∧ Index.__init__ cfg0 git
      (Index.save {| Index.config := cfg0; Index.archiver := git;
                     Index.data := []; Index.operators := PNone;
                     Index._revisions := [item_of rev_abc] |} empty_disk)
    = Raise (KeyError (PStr "operators")).
Proof.
  split; [reflexivity|]. split; [reflexivity|].
  apply (save_then_init_raises
           {| Index.config := cfg0; Index.archiver := git;
              Index.data := []; Index.operators := PNone;
              Index._revisions := [item_of rev_abc] |} empty_disk).
  simpl. discriminate.
Defined.

Lemma init_operators_first_truthy_witness :
  ∃ idx, Index.__init__ cfg0 git (disk_of entries_tagged) = Ok idx
    ∧ Index.operators idx = PList ["raw"; "cyclomatic"].
Proof.
  apply (init_operators_first_truthy cfg0 git (disk_of entries_tagged)
           (persisted "abc123" "A" "a@x.com" "2024-01-01" "init"
              ["raw"; "cyclomatic"])
           [persisted "def456" "B" "b@x.com" "2024-01-02" "second" ["raw"]]
           (PList ["raw"; "cyclomatic"])); reflexivity.
Defined.

(** C2, as stated: the tag set from a first entry with an empty operator
    list is replaced by the operator list of the second entry. *)
Lemma init_operators_overwritten :
  ¬ (∀ d0 rest idx v,
       get_index cfg0 (name git) (disk_of entries_untagged) = d0 :: rest →
       Index.__init__ cfg0 git (disk_of entries_untagged) = Ok idx →
       d0 !! "operators" = Some v →
       Index.operators idx = v).
Proof.
  intros H.
  specialize (H _ _ _ (PList []) eq_refl eq_refl eq_refl). discriminate H.
Qed.

Lemma init_keeps_persisted_order_witness :
  ∃ idx, Index.__init__ cfg0 git (disk_of entries_tagged) = Ok idx
    ∧ Some <$> Index.revision_keys idx
      = [Some (PStr "abc123"); Some (PStr "def456")]
    ∧ Some <$> Index.revisions idx = [Some rev_abc; Some rev_def].
Proof.
  exact (init_keeps_persisted_order cfg0 git (disk_of entries_tagged)
           eq_refl eq_refl ltac:(by_computation)).
Defined.

(** C5, as stated: with a repeated identifier the index has fewer keys
    than the persisted list has entries. *)
Lemma init_order_repeated_key :
  ¬ (∀ idx,
       Index.__init__ cfg0 git (disk_of entries_repeated) = Ok idx →
       Some <$> Index.revision_keys idx
       = (λ d : entry, d !! "revision")
           <$> get_index cfg0 (name git) (disk_of entries_repeated)).
Proof.
  intros H. specialize (H _ eq_refl). discriminate H.
Qed.

(** ** State *)

Section state_claims.
Context {WilyConfig world : Type} `{!Cache WilyConfig world}.
Variable resolve_archiver : string → result Archiver.
Implicit Types (cfg : WilyConfig) (w : world) (names : list string).
Implicit Types (acc m : gmap string (Index.t WilyConfig)).

Lemma build_index_constructible cfg w names acc :
  forallb (constructible resolve_archiver cfg w) names = true →
  ∃ m, State.build_index resolve_archiver cfg w names acc = Ok m.
Proof.
  revert acc. induction names as [|n names IH]; intros acc Hall; simpl.
  - by eexists.
  - simpl in Hall. apply andb_prop in Hall as [Hn Hall].
    unfold constructible in Hn.
    destruct (resolve_archiver n) as [a|]; [|done]. simpl.
    destruct (Index.__init__ cfg a w) as [i|]; [|done]. simpl.
    by apply IH.
Qed.

Lemma build_index_Ok cfg w names acc m :
  State.build_index resolve_archiver cfg w names acc = Ok m →
  (∀ n, n ∈ names →
     ∃ a i, resolve_archiver n = Ok a ∧ Index.__init__ cfg a w = Ok i
            ∧ m !! n = Some i)
  ∧ (∀ n, n ∉ names → m !! n = acc !! n).
Proof.
  revert acc. induction names as [|x names IH]; intros acc; simpl.
  - intros [= <-]. split; [|done]. intros n Hin. by apply elem_of_nil in Hin.
  - destruct (resolve_archiver x) as [a|] eqn:Ha; [|done]. simpl.
    destruct (Index.__init__ cfg a w) as [i|] eqn:Hi; [|done]. simpl.
    intros Hm. destruct (IH _ Hm) as [Hin Hout]. split.
    + intros n Hn. destruct (decide (n ∈ names)) as [?|Hnot]; [by apply Hin|].
      apply elem_of_cons in Hn as [->|?]; [|done].
      exists a, i. rewrite (Hout _ Hnot), lookup_insert_eq. done.
    + intros n [Hne Hn]%not_elem_of_cons.
      rewrite (Hout _ Hn). by rewrite lookup_insert_ne.
Qed.

Lemma build_index_dom cfg w names m :
  State.build_index resolve_archiver cfg w names ∅ = Ok m →
  dom m = list_to_set names.
Proof.
  intros Hm. destruct (build_index_Ok _ _ _ _ _ Hm) as [Hin Hout].
  apply set_eq. intros n. rewrite elem_of_dom, elem_of_list_to_set. split.
  - intros [i Hi]. destruct (decide (n ∈ names)) as [?|Hnot]; [done|].
    rewrite (Hout _ Hnot), lookup_empty in Hi. done.
  - intros Hn. destruct (Hin _ Hn) as (a & i & _ & _ & ->). by eexists.
Qed.

(** C8: the scope of a state is the name of the archiver it is given,
    or else the names the cache store reports; when the scope is not empty
    and an index can be built for each of its names, the construction
    succeeds, [default_archiver] is the first name of the scope, and
    [index] holds for each name of the scope, and for no other name, the
    one index built for it. *)
Theorem state_init_scope cfg archiver w :
  let scope :=
    match archiver with
    | Some a => [name a]
    | None => list_archivers cfg w
    end in
  scope ≠ [] →
  forallb (constructible resolve_archiver cfg w) scope = true →
  ∃ st, State.__init__ resolve_archiver cfg archiver w = Ok st
    ∧ State.archivers st = scope
    ∧ head scope = Some (State.default_archiver st)
    ∧ dom (State.index st) = list_to_set scope
    ∧ (∀ n, n ∈ scope →
         ∃ a i, resolve_archiver n = Ok a ∧ Index.__init__ cfg a w = Ok i
                ∧ State.index st !! n = Some i)
    ∧ (NoDup scope → size (State.index st) = length scope).
Proof.
  intros scope Hne Hall.
  destruct (build_index_constructible cfg w scope ∅ Hall) as [m Hm].
  destruct scope as [|n0 scope'] eqn:Hscope; [done|].
  eexists. split.
  { unfold State.__init__. fold scope. rewrite Hscope, Hm. reflexivity. }
  split; [reflexivity|]. split; [reflexivity|].
  split; [exact (build_index_dom _ _ _ _ Hm)|].
  split; [exact (proj1 (build_index_Ok _ _ _ _ _ Hm))|].
  intros Hnd. cbn [State.index].
  rewrite <-size_dom, (build_index_dom _ _ _ _ Hm).
  by rewrite size_list_to_set.
Qed.

(** Conversely a construction that succeeds had a scope that is not
    empty and whose names are all constructible. *)
Lemma build_index_Ok_constructible cfg w names acc m :
  State.build_index resolve_archiver cfg w names acc = Ok m →
  forallb (constructible resolve_archiver cfg w) names = true.
Proof.
  revert acc. induction names as [|x names IH]; intros acc; simpl; [done|].
  unfold constructible at 1.
  destruct (resolve_archiver x) as [a|]; [|done]. simpl.
  destruct (Index.__init__ cfg a w) as [i|]; [|done]. simpl. apply IH.
Qed.

Lemma state_init_Ok_constructible cfg archiver w st :
  State.__init__ resolve_archiver cfg archiver w = Ok st →
  State.archivers st ≠ []
  ∧ forallb (constructible resolve_archiver cfg w) (State.archivers st) = true.
Proof.
  unfold State.__init__.
  destruct (State.build_index _ _ _ _ _) as [m|] eqn:Hm; [|done]. simpl.
  destruct (match archiver with Some _ => _ | None => _ end) as [|n0 names];
    [done|]. simpl.
  intros [= <-]. simpl. split; [done|].
  by apply (build_index_Ok_constructible _ _ _ _ _ Hm).
Qed.

(** C10: when no archiver is given and the cache store reports none, the
    loop builds no index and the construction raises [IndexError] on
    [self.archivers[0]]. *)
Theorem state_init_no_archivers cfg w :
  list_archivers cfg w = [] →
  State.build_index resolve_archiver cfg w (list_archivers cfg w) ∅ = Ok ∅
  ∧ State.__init__ resolve_archiver cfg None w
    = Raise (IndexError "list index out of range").
Proof.
  intros Hnone. unfold State.__init__. by rewrite Hnone.
Qed.

(** C9: [ensure_exists] on a cache store that exists leaves it as it is
    and calls [cache.create] not at all; two calls in a row call
    [cache.create] at most once, the second never. *)
Theorem ensure_exists_idempotent `{!CacheLaws WilyConfig world}
    (self : State.t WilyConfig) w :
  let first := State.ensure_exists self w in
  let second := State.ensure_exists self first.1 in
  (exists_ (State.config self) w = true → first = (w, []))
  ∧ (creations (first.2 ++ second.2) ≤ 1)%nat
  ∧ creations second.2 = 0
  ∧ second.1 = first.1.
Proof.
  unfold State.ensure_exists.
  destruct (exists_ (State.config self) w) eqn:Hw; simpl.
  - rewrite Hw. simpl. split; [done|]. split; [apply Nat.le_0_l | done].
  - rewrite exists_create. simpl. split; [done|]. split; [|done].
    vm_compute. apply Nat.le_refl.
Qed.
End state_claims.

Lemma state_init_scope_witness :
  ∃ st, State.__init__ resolve_git_svn cfg0 None disk_git_svn = Ok st
    ∧ State.archivers st = ["git"; "svn"]
    ∧ Some "git" = Some (State.default_archiver st)
    ∧ dom (State.index st) = list_to_set ["git"; "svn"]
    ∧ (∀ n, n ∈ ["git"; "svn"] →
         ∃ a i, resolve_git_svn n = Ok a
                ∧ Index.__init__ cfg0 a disk_git_svn = Ok i
                ∧ State.index st !! n = Some i)
    ∧ (NoDup ["git"; "svn"] → size (State.index st) = 2).
Proof.
  refine (state_init_scope resolve_git_svn cfg0 None disk_git_svn _ _).
  - vm_compute. discriminate.
  - reflexivity.
Defined.

Lemma state_init_no_archivers_witness :
  State.build_index resolve_git_svn cfg0 empty_disk [] ∅ = Ok ∅
  ∧ State.__init__ resolve_git_svn cfg0 None empty_disk
    = Raise (IndexError "list index out of range").
Proof.
  refine (state_init_no_archivers resolve_git_svn cfg0 empty_disk _).
  reflexivity.
Defined.

Lemma ensure_exists_idempotent_witness :
  (present empty_disk = true →
   State.ensure_exists state_git empty_disk = (empty_disk, []))
  ∧ (creations
      ((State.ensure_exists state_git disk_absent).2
       ++ (State.ensure_exists state_git
             (State.ensure_exists state_git disk_absent).1).2) ≤ 1)%nat.
Proof.
  split.
  - exact (proj1 (ensure_exists_idempotent (CacheLaws0 := disk_laws)
                    state_git empty_disk)).
  - exact (proj1 (proj2 (ensure_exists_idempotent (CacheLaws0 := disk_laws)
                           state_git disk_absent))).
Defined.

(** * Further properties *)

(** ** What a load that succeeds has done *)

Section load_inversion.
Context {WilyConfig world : Type} `{!Cache WilyConfig world}.
Implicit Types (self idx : Index.t WilyConfig) (d : entry) (r : Revision).

Lemma init_cached cfg a w :
  Index.__init__ cfg a w
  = Index.load (Index.blank cfg a (cached cfg a w)) (cached cfg a w).
Proof. done. Qed.

Lemma load_entry_cases self d :
  match Index.load_entry self d with
  | Ok idx =>
      ∃ r, revision_of d = Some r ∧ hashable (key r) = true
        ∧ (truthy (Index.operators self) = true ∨ is_Some (d !! "operators"))
        ∧ idx = {| Index.config := Index.config self;
                   Index.archiver := Index.archiver self;
                   Index.data := Index.data self;
                   Index.operators := tag (Index.operators self) d;
                   Index._revisions :=
                     od_assign (key r) r (Index._revisions self) |}
  | Raise e =>
      (∃ f, f ∈ entry_fields ∧ d !! f = None ∧ e = KeyError (PStr f))
      ∨ (∃ l, d !! "revision" = Some (PList l) ∧ e = unhashable)
  end.
Proof.
  unfold Index.load_entry, tag, revision_of, dict_getitem.
  assert (∀ f, f ∈ entry_fields →
            d !! f = None →
            (∃ f', f' ∈ entry_fields ∧ d !! f' = None
                   ∧ KeyError (PStr f) = KeyError (PStr f'))
            ∨ (∃ l, d !! "revision" = Some (PList l)
                    ∧ KeyError (PStr f) = unhashable)) as Hmiss.
  { intros f Hf Hnone. left. by exists f. }
  assert (∀ f, In f entry_fields → f ∈ entry_fields) as Hin.
  { intros f Hf. by apply list_elem_of_In. }
  destruct (truthy (Index.operators self)) eqn:Hops; simpl.
  - destruct (d !! "revision") as [k|] eqn:Hk; simpl;
      [|apply Hmiss; [apply Hin; simpl; tauto | done]].
    destruct (d !! "author_name") as [an|] eqn:Han; simpl;
      [|apply Hmiss; [apply Hin; simpl; tauto | done]].
    destruct (d !! "author_email") as [ae|] eqn:Hae; simpl;
      [|apply Hmiss; [apply Hin; simpl; tauto | done]].
    destruct (d !! "date") as [dt|] eqn:Hdt; simpl;
      [|apply Hmiss; [apply Hin; simpl; tauto | done]].
    destruct (d !! "message") as [msg|] eqn:Hmsg; simpl;
      [|apply Hmiss; [apply Hin; simpl; tauto | done]].
    unfold Index.add, od_setitem. simpl.
    destruct k; simpl; try (eexists; repeat split; eauto; fail).
    right. by eexists.
  - destruct (d !! "operators") as [o|] eqn:Ho; simpl;
      [|apply Hmiss; [apply Hin; simpl; tauto | done]].
    destruct (d !! "revision") as [k|] eqn:Hk; simpl;
      [|apply Hmiss; [apply Hin; simpl; tauto | done]].
    destruct (d !! "author_name") as [an|] eqn:Han; simpl;
      [|apply Hmiss; [apply Hin; simpl; tauto | done]].
    destruct (d !! "author_email") as [ae|] eqn:Hae; simpl;
      [|apply Hmiss; [apply Hin; simpl; tauto | done]].
    destruct (d !! "date") as [dt|] eqn:Hdt; simpl;
      [|apply Hmiss; [apply Hin; simpl; tauto | done]].
    destruct (d !! "message") as [msg|] eqn:Hmsg; simpl;
      [|apply Hmiss; [apply Hin; simpl; tauto | done]].
    unfold Index.add, od_setitem. simpl.
    destruct k; simpl; try (eexists; repeat split; eauto; fail).
    right. by eexists.
Qed.
End load_inversion.

Section load_shape.
Context {WilyConfig world : Type} `{!Cache WilyConfig world}.
Implicit Types (self idx : Index.t WilyConfig) (d : entry) (r : Revision).

Lemma load_Ok_shape self entries idx :
  Index.load self entries = Ok idx →
  Forall (λ d, is_Some (revision_of d)) entries
  ∧ forallb (λ r, hashable (key r)) (omap revision_of entries) = true
  ∧ idx = {| Index.config := Index.config self;
             Index.archiver := Index.archiver self;
             Index.data := Index.data self;
             Index.operators := foldl tag (Index.operators self) entries;
             Index._revisions :=
               assign_all (Index._revisions self)
                 (omap revision_of entries) |}.
Proof.
  revert self. induction entries as [|d entries IH]; intros self; simpl.
  - intros [= <-]. split; [by constructor|]. split; [done|]. by destruct self.
  - pose proof (load_entry_cases self d) as Hd.
    destruct (Index.load_entry self d) as [self'|]; [|done]. simpl.
    destruct Hd as (r & Hr & Hk & _ & ->). intros Hload.
    destruct (IH _ Hload) as (Hall & Hhash & ->). simpl.
    split; [constructor; [by rewrite Hr | done]|].
    rewrite Hr. simpl. rewrite Hk. split; [exact Hhash | done].
Qed.

Lemma load_entry_returns self d :
  returns (Index.load_entry self d)
  = (truthy (Index.operators self) || bool_decide (is_Some (d !! "operators")))
    && match revision_of d with
       | Some r => hashable (key r)
       | None => false
       end.
Proof.
  unfold Index.load_entry, revision_of, dict_getitem, Index.add, od_setitem.
  destruct (d !! "operators") as [o|].
  - rewrite (bool_decide_true (is_Some (Some o))) by (by eexists).
    rewrite orb_true_r.
    destruct (truthy (Index.operators self)); simpl;
      (destruct (d !! "revision") as [k|]; simpl; [|done]);
      (destruct (d !! "author_name"); simpl; [|done]);
      (destruct (d !! "author_email"); simpl; [|done]);
      (destruct (d !! "date"); simpl; [|done]);
      (destruct (d !! "message"); simpl; [|done]);
      by destruct k.
  - rewrite (bool_decide_false (is_Some None)) by (by intros [? ?]).
    rewrite orb_false_r.
    destruct (truthy (Index.operators self)); simpl; [|done].
    destruct (d !! "revision") as [k|]; simpl; [|done].
    destruct (d !! "author_name"); simpl; [|done].
    destruct (d !! "author_email"); simpl; [|done].
    destruct (d !! "date"); simpl; [|done].
    destruct (d !! "message"); simpl; [|done].
    by destruct k.
Qed.

Lemma load_returns_loads self entries :
  returns (Index.load self entries) = loads (Index.operators self) entries.
Proof.
  revert self. induction entries as [|d entries IH]; intros self; [done|].
  simpl. rewrite <-load_entry_returns.
  pose proof (load_entry_cases self d) as Hd.
  destruct (Index.load_entry self d) as [self'|e]; simpl; [|done].
  destruct Hd as (r & _ & _ & _ & ->). by rewrite IH.
Qed.

End load_shape.

(** ** Dictionaries filled record by record *)

Lemma keyed_assign od r : keyed od → keyed (od_assign (key r) r od).
Proof.
  unfold keyed. induction od as [|[k' v'] od IH]; simpl; intros Hod.
  - by repeat constructor.
  - apply Forall_cons in Hod as [Hk Hod].
    destruct (decide (key r = k')) as [Heq|Hne].
    + constructor; [by simpl | done].
    + constructor; [done | by apply IH].
Qed.

Lemma keyed_assign_all od rs : keyed od → keyed (assign_all od rs).
Proof.
  revert od. induction rs as [|r rs IH]; intros od Hod; [done|].
  unfold assign_all. simpl. apply IH. by apply keyed_assign.
Qed.

Lemma keyed_keys od : keyed od → od_keys od = key <$> od_values od.
Proof.
  unfold keyed, od_keys, od_values.
  induction 1 as [|[k v] od Hk Hod IH]; [done|].
  simpl in Hk. subst k. rewrite !fmap_cons. simpl. by f_equal.
Qed.

Lemma length_assign {V} (k : pyval) (v : V) (od : OrderedDict V) :
  (length (od_assign k v od) ≤ S (length od))%nat.
Proof.
  induction od as [|[k' v'] od IH]; simpl; [lia|].
  destruct (decide (k = k')); simpl; lia.
Qed.

Lemma length_assign_all od rs :
  (length (assign_all od rs) ≤ length od + length rs)%nat.
Proof.
  revert od. induction rs as [|r rs IH]; intros od; simpl; [lia|].
  unfold assign_all. simpl. fold (assign_all (od_assign (key r) r od) rs).
  pose proof (IH (od_assign (key r) r od)).
  pose proof (length_assign (key r) r od). lia.
Qed.

Lemma keys_assign_all od rs :
  od_keys (assign_all od rs)
  = od_keys od ++ unseen (od_keys od) (key <$> rs).
Proof.
  revert od. induction rs as [|r rs IH]; intros od; simpl.
  - by rewrite app_nil_r.
  - unfold assign_all. simpl. fold (assign_all (od_assign (key r) r od) rs).
    rewrite IH. destruct (decide (key r ∈ od_keys od)) as [Hin|Hout].
    + by rewrite od_assign_present.
    + rewrite od_assign_absent by done.
      replace (od_keys (od ++ [(key r, r)])) with (od_keys od ++ [key r])
        by (unfold od_keys; by rewrite fmap_app).
      by rewrite <-app_assoc.
Qed.

Lemma find_assign_all od rs k :
  od_find k (assign_all od rs)
  = match last_under k rs with
    | Some r => Some r
    | None => od_find k od
    end.
Proof.
  revert od. induction rs as [|r rs IH]; intros od; [done|].
  unfold assign_all. simpl. fold (assign_all (od_assign (key r) r od) rs).
  rewrite IH. unfold last_under. rewrite filter_cons.
  destruct (decide (key r = k)) as [<-|Hne].
  - rewrite last_cons, od_find_assign.
    by destruct (last (filter _ rs)).
  - by rewrite od_find_assign_ne.
Qed.

Lemma foldl_tag_falsy ops0 entries :
  truthy ops0 = false →
  loads ops0 entries = true →
  foldl tag ops0 entries
  = match head (filter (λ v, truthy v = true)
                  (omap (λ d : entry, d !! "operators") entries)) with
    | Some v => v
    | None => default ops0 (last (omap (λ d : entry, d !! "operators") entries))
    end.
Proof.
  revert ops0. induction entries as [|d entries IH]; intros ops0 Hops; [done|].
  simpl. rewrite Hops. simpl.
  intros [[Ho _]%andb_prop Hrest]%andb_prop.
  apply bool_decide_eq_true in Ho as [o Ho].
  assert (tag ops0 d = o) as Htag by (unfold tag; by rewrite Hops, Ho).
  rewrite Htag in *. rewrite Ho. simpl. rewrite filter_cons.
  destruct (truthy o) eqn:Htruthy.
  - rewrite decide_True by done. simpl. by apply tag_truthy.
  - rewrite decide_False by done. rewrite (IH o) by done.
    destruct (head _); [done|]. rewrite last_cons.
    by destruct (last _).
Qed.

Lemma length_omap_le {A B} (f : A → option B) (l : list A) :
  (length (omap f l) ≤ length l)%nat.
Proof.
  induction l as [|x l IH]; [done|].
  change (omap f (x :: l))
    with (match f x with Some y => y :: omap f l | None => omap f l end).
  destruct (f x); cbn [length]; lia.
Qed.

Lemma omap_revision_keys (entries : list entry) :
  Forall (λ d, is_Some (revision_of d)) entries →
  omap (λ d : entry, d !! "revision") entries
  = key <$> omap revision_of entries.
Proof.
  induction 1 as [|d entries [r Hr] _ IH]; [done|].
  simpl. rewrite (revision_of_key d r Hr), Hr. simpl. by f_equal.
Qed.

(** ** Index: what [__init__] returns and when *)

Section init_extras.
Context {WilyConfig world : Type} `{!Cache WilyConfig world}.
Implicit Types (self idx : Index.t WilyConfig) (d : entry) (r : Revision).

(** X1: [Index.__init__] returns exactly when every cached entry has the
    five revision fields with a hashable identifier and, as long as no
    truthy operator set has been read, an [operators] field. *)
Theorem init_returns_iff_loads cfg a w :
  returns (Index.__init__ cfg a w) = loads PNone (cached cfg a w).
Proof. rewrite init_cached. apply load_returns_loads. Qed.

(** X2: an index that [__init__] returns carries the configuration and the
    archiver it was given and the cached list as [data]; its keys are
    distinct and hashable, every record sits under its own key, and it
    holds at most as many revisions as there are cached entries. *)
Theorem init_invariants cfg a w idx :
  Index.__init__ cfg a w = Ok idx →
  Index.config idx = cfg ∧ Index.archiver idx = a
  ∧ Index.data idx = cached cfg a w
  ∧ NoDup (Index.revision_keys idx)
  ∧ Forall (λ k, hashable k = true) (Index.revision_keys idx)
  ∧ Index.revision_keys idx = key <$> Index.revisions idx
  ∧ (Index.__len__ idx ≤ length (cached cfg a w))%nat.
Proof.
  intros Hinit. destruct (init_wf _ _ _ _ Hinit) as [Hnd Hh].
  rewrite init_cached in Hinit.
  destruct (load_Ok_shape _ _ _ Hinit) as (Hall & _ & ->).
  repeat (split; [done|]). split.
  - apply keyed_keys. simpl. apply keyed_assign_all. constructor.
  - unfold Index.__len__, od_len. simpl.
    pose proof (length_assign_all [] (omap revision_of (cached cfg a w))) as Hle.
    pose proof (length_omap_le revision_of (cached cfg a w)). simpl in Hle. lia.
Qed.

(** X3: in an index that [__init__] returns, [revision_keys] lists the
    cached identifiers in the order of their first occurrence, and
    [__getitem__] gives for an identifier the record of the last cached
    entry that carries it, [KeyError] when no entry does. *)
Theorem init_first_occurrences_last_write cfg a w idx :
  Index.__init__ cfg a w = Ok idx →
  Index.revision_keys idx
  = first_occurrences (omap (λ d : entry, d !! "revision") (cached cfg a w))
  ∧ ∀ k, hashable k = true →
      Index.__getitem__ idx k
      = match last_under k (omap revision_of (cached cfg a w)) with
        | Some r => Ok r
        | None => Raise (KeyError k)
        end.
Proof.
  intros Hinit. rewrite init_cached in Hinit.
  destruct (load_Ok_shape _ _ _ Hinit) as (Hall & _ & ->). split.
  - unfold Index.revision_keys. simpl.
    by rewrite keys_assign_all, omap_revision_keys.
  - intros k Hk. unfold Index.__getitem__, od_getitem. rewrite Hk. simpl.
    rewrite find_assign_all. by destruct (last_under _ _).
Qed.

(** X4: the operators tag of an index that [__init__] returns is the first
    truthy [operators] value of the cached entries; when there is none it
    is the value of the last entry, and [None] without entries. *)
Theorem init_operators_first_truthy_or_last cfg a w idx :
  Index.__init__ cfg a w = Ok idx →
  Index.operators idx
  = match head (filter (λ v, truthy v = true)
                  (omap (λ d : entry, d !! "operators") (cached cfg a w))) with
    | Some v => v
    | None =>
        default PNone
          (last (omap (λ d : entry, d !! "operators") (cached cfg a w)))
    end.
Proof.
  intros Hinit. rewrite init_cached in Hinit.
  pose proof (load_returns_loads (Index.blank cfg a (cached cfg a w))
                (cached cfg a w)) as Hloads.
  rewrite Hinit in Hloads. simpl in Hloads.
  destruct (load_Ok_shape _ _ _ Hinit) as (_ & _ & ->). simpl.
  by apply foldl_tag_falsy.
Qed.

End init_extras.

Lemma init_invariants_witness :
  ∃ idx, Index.__init__ cfg0 git (disk_of entries_repeated) = Ok idx
    ∧ Index.config idx = cfg0 ∧ Index.archiver idx = git
    ∧ Index.data idx = entries_repeated
    ∧ NoDup (Index.revision_keys idx)
    ∧ Forall (λ k, hashable k = true) (Index.revision_keys idx)
    ∧ Index.revision_keys idx = key <$> Index.revisions idx
    ∧ (Index.__len__ idx ≤ 3)%nat.
Proof.
  eexists. split; [reflexivity|].
  exact (init_invariants cfg0 git (disk_of entries_repeated) _ eq_refl).
Defined.

Lemma init_first_occurrences_last_write_witness :
  ∃ idx, Index.__init__ cfg0 git (disk_of entries_repeated) = Ok idx
    ∧ Index.revision_keys idx = [PStr "abc123"; PStr "def456"]
    ∧ Index.__getitem__ idx (PStr "abc123") = Ok rev_abc'
    ∧ Index.__getitem__ idx (PStr "0000") = Raise (KeyError (PStr "0000")).
Proof.
  eexists. split; [reflexivity|].
  pose proof (init_first_occurrences_last_write cfg0 git
                (disk_of entries_repeated) _ eq_refl) as [Hkeys Hget].
  split; [exact Hkeys|].
  split; [exact (Hget (PStr "abc123") eq_refl)
         | exact (Hget (PStr "0000") eq_refl)].
Defined.

Lemma init_operators_first_truthy_or_last_witness :
  ∃ idx, Index.__init__ cfg0 git (disk_of entries_untagged) = Ok idx
    ∧ Index.operators idx = PList ["raw"].
Proof.
  eexists. split; [reflexivity|].
  exact (init_operators_first_truthy_or_last cfg0 git
           (disk_of entries_untagged) _ eq_refl).
Defined.


(** ** Index: [add] and the lookups *)

Section add_extras.
Context {WilyConfig : Type}.
Implicit Types (self idx : Index.t WilyConfig) (r : Revision) (k : pyval).

Lemma add_Ok_inv self r idx :
  Index.add self r = Ok idx →
  hashable (key r) = true
  ∧ idx = {| Index.config := Index.config self;
             Index.archiver := Index.archiver self;
             Index.data := Index.data self;
             Index.operators := Index.operators self;
             Index._revisions := od_assign (key r) r (Index._revisions self) |}.
Proof.
  unfold Index.add, od_setitem. destruct (hashable (key r)); [|done].
  simpl. by intros [= <-].
Qed.

(** X6: adding a revision under a key the index does not hold puts the key
    at the end of [revision_keys] and the record at the end of
    [revisions]; the index is one longer. *)
Theorem add_new_key_appends self r :
  hashable (key r) = true →
  key r ∉ Index.revision_keys self →
  ∃ idx, Index.add self r = Ok idx
    ∧ Index.revision_keys idx = Index.revision_keys self ++ [key r]
    ∧ Index.revisions idx = Index.revisions self ++ [r]
    ∧ Index.__len__ idx = S (Index.__len__ self).
Proof.
  intros Hk Hout. eexists. split; [by apply add_hashable|].
  unfold Index.revision_keys, Index.revisions, Index.__len__.
  unfold od_keys, od_values, od_len. simpl.
  rewrite od_assign_absent by done. rewrite !fmap_app, length_app. simpl.
  repeat split. lia.
Qed.

(** X7: [add] changes nothing but the entry of the key it writes: the
    configuration, archiver, cached data and operators tag stay, and
    lookups and membership tests of every other key answer as before. *)
Theorem add_leaves_the_rest self r idx :
  Index.add self r = Ok idx →
  Index.config idx = Index.config self
  ∧ Index.archiver idx = Index.archiver self
  ∧ Index.data idx = Index.data self
  ∧ Index.operators idx = Index.operators self
  ∧ ∀ k, k ≠ key r →
      Index.__getitem__ idx k = Index.__getitem__ self k
      ∧ Index.__contains__ idx (Index.AValue k)
        = Index.__contains__ self (Index.AValue k).
Proof.
  intros Hadd. destruct (add_Ok_inv _ _ _ Hadd) as [Hk ->]. simpl.
  repeat (split; [done|]). intros k Hne.
  unfold Index.__getitem__, Index.__contains__, od_getitem, od_contains.
  destruct k; simpl; rewrite ?od_find_assign_ne by congruence; done.
Qed.

(** X8: once [add] has returned, [__getitem__] on the key of the revision
    gives that revision and the revision, like its key, is a member,
    whether the key was there before or not; the length has grown by at
    most one. *)
Theorem add_then_lookup self r idx :
  Index.add self r = Ok idx →
  Index.__getitem__ idx (key r) = Ok r
  ∧ Index.__contains__ idx (Index.ARevision r) = Ok true
  ∧ (Index.__len__ self ≤ Index.__len__ idx ≤ S (Index.__len__ self))%nat.
Proof.
  intros Hadd. destruct (add_Ok_inv _ _ _ Hadd) as [Hk ->].
  unfold Index.__getitem__, Index.__contains__, od_getitem, od_contains.
  unfold Index.__len__, od_len. simpl. rewrite Hk, od_find_assign.
  split; [done|]. split; [done|].
  destruct (decide (key r ∈ od_keys (Index._revisions self))) as [Hin|Hout].
  - pose proof (od_assign_present _ _ r Hin) as Hkeys.
    apply (f_equal length) in Hkeys. unfold od_keys in Hkeys.
    rewrite !length_fmap in Hkeys. lia.
  - rewrite od_assign_absent by done. rewrite length_app. simpl. lia.
Qed.

(** X9: two calls of [add] with revisions of the same key leave the index
    as the second call alone does; adding a revision twice is adding it
    once. *)
Theorem add_last_write_wins self r1 r2 :
  key r1 = key r2 →
  Index.add self r1 ≫= (λ idx, Index.add idx r2) = Index.add self r2.
Proof.
  intros Hkey. unfold Index.add, od_setitem. rewrite Hkey.
  destruct (hashable (key r2)) eqn:Hk; [|done]. simpl.
  do 2 f_equal.
  induction (Index._revisions self) as [|[k v] od IH]; simpl.
  - by rewrite decide_True.
  - destruct (decide (key r2 = k)) as [Heq|Hne]; simpl.
    + by rewrite decide_True.
    + rewrite decide_False by done. by rewrite IH.
Qed.

(** X10: membership and lookup agree: [key in index] is [True] exactly
    when [index[key]] returns a record, and when it is [False] the lookup
    raises [KeyError]. *)
Theorem contains_iff_getitem self (s : string) :
  Index.__contains__ self (Index.AValue (PStr s))
  = Ok (returns (Index.__getitem__ self (PStr s)))
  ∧ (Index.__contains__ self (Index.AValue (PStr s)) = Ok false →
     Index.__getitem__ self (PStr s) = Raise (KeyError (PStr s))).
Proof.
  unfold Index.__contains__, Index.__getitem__, od_contains, od_getitem.
  simpl. destruct (od_find (PStr s) (Index._revisions self)) as [r|].
  - rewrite bool_decide_true by (by eexists). done.
  - rewrite bool_decide_false by (by intros [? ?]). done.
Qed.

(** X11: a sequence of [add] calls with hashable keys, repeated or not,
    extends [revision_keys] by the new keys in the order of their first
    occurrence, and afterwards [__getitem__] gives for each key of the
    sequence the last revision added under it. *)
Theorem add_all_first_occurrences_last_write self rs :
  forallb (λ r, hashable (key r)) rs = true →
  ∃ idx, add_all self rs = Ok idx
    ∧ Index.revision_keys idx
      = Index.revision_keys self
        ++ unseen (Index.revision_keys self) (key <$> rs)
    ∧ ∀ r, last_under (key r) rs = Some r →
        Index.__getitem__ idx (key r) = Ok r.
Proof.
  intros Hall. eexists. split; [by apply add_all_hashable|]. split.
  - unfold Index.revision_keys. simpl. apply keys_assign_all.
  - intros r Hlast. unfold Index.__getitem__, od_getitem. simpl.
    rewrite find_assign_all, Hlast.
    assert (r ∈ rs) as Hin.
    { unfold last_under in Hlast. apply last_Some_elem_of in Hlast.
      by apply list_elem_of_filter in Hlast as [_ ?]. }
    rewrite forallb_forall in Hall. apply list_elem_of_In in Hin.
    by rewrite (Hall _ Hin).
Qed.

(** X12: [add] keeps an index in order: when its keys are distinct and
    hashable and every record sits under its own key, the same holds
    after the call, and [revision_keys] is still the list of the keys of
    [revisions]. *)
Theorem add_keeps_invariants self r idx :
  od_wf (Index._revisions self) →
  keyed (Index._revisions self) →
  Index.add self r = Ok idx →
  od_wf (Index._revisions idx)
  ∧ keyed (Index._revisions idx)
  ∧ Index.revision_keys idx = key <$> Index.revisions idx.
Proof.
  intros Hwf Hkeyed Hadd. destruct (add_Ok_inv _ _ _ Hadd) as [Hk ->].
  simpl. assert (keyed (od_assign (key r) r (Index._revisions self))) as Hk'
    by (by apply keyed_assign).
  split; [by apply od_wf_assign|]. split; [done|]. by apply keyed_keys.
Qed.
End add_extras.

Lemma add_new_key_appends_witness :
  ∃ idx, Index.add idx_two
           {| key := PStr "0789"; author_name := PStr "C";
              author_email := PStr "c@x.com"; date := PStr "2024-01-04";
              message := PStr "third" |} = Ok idx
    ∧ Index.revision_keys idx = [PStr "abc123"; PStr "def456"; PStr "0789"]
    ∧ Index.revisions idx
      = [rev_abc; rev_def;
         {| key := PStr "0789"; author_name := PStr "C";
            author_email := PStr "c@x.com"; date := PStr "2024-01-04";
            message := PStr "third" |}]
    ∧ Index.__len__ idx = 3.
Proof.
  refine (add_new_key_appends idx_two _ _ _).
  - reflexivity.
  - by_computation.
Defined.

Lemma add_leaves_the_rest_witness :
  ∃ idx, Index.add idx_two rev_abc' = Ok idx
    ∧ Index.operators idx = PNone
    ∧ Index.__getitem__ idx (PStr "def456") = Ok rev_def
    ∧ Index.__contains__ idx (Index.AValue (PStr "0000")) = Ok false.
Proof.
  eexists. split; [reflexivity|].
  pose proof (add_leaves_the_rest idx_two rev_abc' _ eq_refl)
    as (_ & _ & _ & Hops & Hrest).
  split; [exact Hops|].
  split; [exact (proj1 (Hrest (PStr "def456") ltac:(discriminate)))
         | exact (proj2 (Hrest (PStr "0000") ltac:(discriminate)))].
Defined.

Lemma add_then_lookup_witness :
  ∃ idx, Index.add idx_empty rev_abc = Ok idx
    ∧ Index.__getitem__ idx (PStr "abc123") = Ok rev_abc
    ∧ Index.__contains__ idx (Index.ARevision rev_abc) = Ok true
    ∧ (0 ≤ Index.__len__ idx ≤ 1)%nat.
Proof.
  eexists. split; [reflexivity|].
  exact (add_then_lookup idx_empty rev_abc _ eq_refl).
Defined.

Lemma add_last_write_wins_witness :
  Index.add idx_empty rev_abc ≫= (λ idx, Index.add idx rev_abc')
  = Index.add idx_empty rev_abc'.
Proof. exact (add_last_write_wins idx_empty rev_abc rev_abc' eq_refl). Defined.

Lemma contains_iff_getitem_witness :
  Index.__contains__ idx_two (Index.AValue (PStr "0000")) = Ok false
  ∧ Index.__getitem__ idx_two (PStr "0000") = Raise (KeyError (PStr "0000")).
Proof.
  split; [reflexivity|].
  exact (proj2 (contains_iff_getitem idx_two "0000") eq_refl).
Defined.

Lemma add_all_first_occurrences_last_write_witness :
  ∃ idx, add_all idx_empty [rev_abc; rev_def; rev_abc'] = Ok idx
    ∧ Index.revision_keys idx = [PStr "abc123"; PStr "def456"]
    ∧ Index.__getitem__ idx (PStr "abc123") = Ok rev_abc'.
Proof.
  destruct (add_all_first_occurrences_last_write idx_empty
              [rev_abc; rev_def; rev_abc'] eq_refl)
    as (idx & Hadd & Hkeys & Hget).
  exists idx. split; [exact Hadd|]. split; [exact Hkeys|].
  exact (Hget rev_abc' eq_refl).
Defined.

Lemma add_keeps_invariants_witness :
  ∃ idx, Index.add idx_two rev_abc' = Ok idx
    ∧ od_wf (Index._revisions idx)
    ∧ keyed (Index._revisions idx)
    ∧ Index.revision_keys idx = key <$> Index.revisions idx.
Proof.
  eexists. split; [reflexivity|].
  refine (add_keeps_invariants idx_two rev_abc' _ _ _ eq_refl).
  - by_computation.
  - by_computation.
Defined.

(** ** Index: what [save] persists *)

Lemma asdict_lookups r :
  asdict r !! "key" = Some (key r)
  ∧ asdict r !! "author_name" = Some (author_name r)
  ∧ asdict r !! "author_email" = Some (author_email r)
  ∧ asdict r !! "date" = Some (date r)
  ∧ asdict r !! "message" = Some (message r).
Proof. done. Qed.

Lemma asdict_inj r1 r2 : asdict r1 = asdict r2 → r1 = r2.
Proof.
  intros Heq.
  destruct (asdict_lookups r1) as (Hk1 & Han1 & Hae1 & Hd1 & Hm1).
  destruct (asdict_lookups r2) as (Hk2 & Han2 & Hae2 & Hd2 & Hm2).
  rewrite Heq in Hk1, Han1, Hae1, Hd1, Hm1.
  destruct r1, r2. simpl in *. congruence.
Qed.

Lemma asdict_list_inj (rs1 rs2 : list Revision) :
  asdict <$> rs1 = asdict <$> rs2 → rs1 = rs2.
Proof.
  revert rs2. induction rs1 as [|r1 rs1 IH]; intros [|r2 rs2]; try done.
  rewrite !fmap_cons. intros Heq. apply (inj2 cons) in Heq as [Hr Hrs].
  f_equal; [exact (asdict_inj _ _ Hr) | exact (IH _ Hrs)].
Qed.

Section save_extras.
Context {WilyConfig world : Type} `{!Cache WilyConfig world}.
Context `{!CacheLaws WilyConfig world}.
Implicit Types (self other idx : Index.t WilyConfig) (w : world).

(** X13: after [save] the archiver has an index in the cache store, made
    of one item per revision in the order of [revisions], each with the
    five fields of the revision under their names and no other; two
    indexes persist the same list only when their revisions are the
    same. *)
Theorem save_persists_revisions self w :
  let saved :=
    get_index (Index.config self) (name (Index.archiver self))
      (Index.save self w) in
  has_index (Index.config self) (name (Index.archiver self))
    (Index.save self w) = true
  ∧ saved = asdict <$> Index.revisions self
  ∧ length saved = Index.__len__ self
  ∧ Forall (λ d : entry,
       dom d = list_to_set
                 ["key"; "author_name"; "author_email"; "date"; "message"])
      saved
  ∧ ∀ other, asdict <$> Index.revisions other = saved →
      Index.revisions other = Index.revisions self.
Proof.
  intros saved. subst saved. unfold Index.save.
  rewrite has_index_store_index, get_index_store_index.
  split; [done|]. split; [done|]. split.
  { unfold Index.revisions, Index.__len__, od_values, od_len.
    by rewrite !length_fmap. }
  split.
  - apply Forall_fmap, Forall_forall. intros r _. simpl. unfold asdict.
    rewrite !dom_insert_L, dom_empty_L. simpl. set_solver.
  - intros other. apply asdict_list_inj.
Qed.

(** X14: saving an index that holds no revision and constructing the index
    again gives an index without revisions and without tag. *)
Theorem save_empty_then_init self w :
  Index._revisions self = [] →
  ∃ idx,
    Index.__init__ (Index.config self) (Index.archiver self)
      (Index.save self w) = Ok idx
    ∧ Index.__len__ idx = 0
    ∧ Index.revision_keys idx = []
    ∧ Index.operators idx = PNone
    ∧ Index.data idx = [].
Proof.
  intros Hempty. unfold Index.__init__, Index.save.
  rewrite has_index_store_index, get_index_store_index, Hempty. simpl.
  by eexists.
Qed.
End save_extras.

Lemma save_persists_revisions_witness :
  get_index cfg0 "git" (Index.save idx_two empty_disk)
  = [asdict rev_abc; asdict rev_def]
  ∧ length (get_index cfg0 "git" (Index.save idx_two empty_disk)) = 2.
Proof.
  pose proof (save_persists_revisions (CacheLaws0 := disk_laws)
                idx_two empty_disk) as (_ & Hsaved & Hlen & _).
  split; [exact Hsaved | exact Hlen].
Defined.

Lemma save_empty_then_init_witness :
  ∃ idx, Index.__init__ cfg0 git (Index.save idx_empty disk_absent) = Ok idx
    ∧ Index.__len__ idx = 0
    ∧ Index.revision_keys idx = []
    ∧ Index.operators idx = PNone
    ∧ Index.data idx = [].
Proof.
  exact (save_empty_then_init (CacheLaws0 := disk_laws)
           idx_empty disk_absent eq_refl).
Defined.

(** ** State: errors and what the indexes carry *)

Lemma size_list_to_set_le (l : list string) :
  (size (list_to_set l : gset string) ≤ length l)%nat.
Proof.
  induction l as [|x l IH].
  - rewrite list_to_set_nil, size_empty. done.
  - rewrite list_to_set_cons, size_union_alt, size_singleton.
    assert (list_to_set l ∖ {[x]} ⊆ (list_to_set l : gset string)) as Hsub
      by (by apply subseteq_difference_l).
    apply subseteq_size in Hsub. cbn [length]. lia.
Qed.

Section state_extras.
Context {WilyConfig world : Type} `{!Cache WilyConfig world}.
Variable resolve_archiver : string → result Archiver.
Implicit Types (cfg : WilyConfig) (w : world) (names : list string).
Implicit Types (acc m : gmap string (Index.t WilyConfig)).


Lemma init_fields cfg a w idx :
  Index.__init__ cfg a w = Ok idx →
  Index.config idx = cfg ∧ Index.archiver idx = a
  ∧ Index.data idx = cached cfg a w.
Proof.
  rewrite init_cached. intros Hinit.
  by destruct (load_Ok_shape _ _ _ Hinit) as (_ & _ & ->).
Qed.


(** X16: in a state that [State.__init__] returns, the configuration is
    the one given, the index dictionary has no more entries than the
    scope has names, and the index under a name belongs to the scope,
    carries the state's configuration, the archiver that
    [resolve_archiver] gives for the name and the entry list cached for
    that archiver. *)
Theorem state_init_indexes cfg archiver w st :
  State.__init__ resolve_archiver cfg archiver w = Ok st →
  State.config st = cfg
  ∧ (size (State.index st) ≤ length (State.archivers st))%nat
  ∧ ∀ n i, State.index st !! n = Some i →
      n ∈ State.archivers st
      ∧ Index.config i = cfg
      ∧ resolve_archiver n = Ok (Index.archiver i)
      ∧ Index.data i = cached cfg (Index.archiver i) w.
Proof.
  unfold State.__init__.
  destruct (State.build_index _ _ _ _ _) as [m|] eqn:Hm; [|done]. simpl.
  destruct (match archiver with Some _ => _ | None => _ end) as [|n0 names]
    eqn:Hscope; [done|]. simpl. intros [= <-]. simpl.
  split; [done|]. split.
  - rewrite <-size_dom, (build_index_dom _ _ _ _ _ Hm).
    apply size_list_to_set_le.
  - intros n i Hi. destruct (build_index_Ok _ _ _ _ _ _ Hm) as [Hin Hout].
    destruct (decide (n ∈ n0 :: names)) as [Hn|Hn].
    + destruct (Hin _ Hn) as (a & i' & Ha & Hinit & Hi').
      assert (i' = i) as -> by congruence.
      destruct (init_fields _ _ _ _ Hinit) as (Hc & Harch & Hdata).
      split; [done|]. split; [done|]. rewrite Harch. done.
    + rewrite (Hout _ Hn), lookup_empty in Hi. done.
Qed.

(** X17: whatever the cache store was like before, it exists after
    [ensure_exists]; [cache.create] is called once when it did not exist,
    between the two debug messages, and nothing is logged when it did. *)
Theorem ensure_exists_establishes `{!CacheLaws WilyConfig world}
    (self : State.t WilyConfig) w :
  exists_ (State.config self) (State.ensure_exists self w).1 = true
  ∧ creations (State.ensure_exists self w).2
    = (if exists_ (State.config self) w then 0 else 1)
  ∧ (State.ensure_exists self w).2
    = if exists_ (State.config self) w then []
      else [LoggerDebug "Wily cache not found, creating."; CacheCreate;
            LoggerDebug "Created wily cache"].
Proof.
  unfold State.ensure_exists.
  destruct (exists_ (State.config self) w) eqn:Hw; simpl; [done|].
  by rewrite exists_create.
Qed.
End state_extras.


Lemma state_init_indexes_witness :
  ∃ st, State.__init__ resolve_git_svn cfg0 None disk_git_svn = Ok st
    ∧ State.config st = cfg0
    ∧ (size (State.index st) ≤ 2)%nat
    ∧ ∀ n i, State.index st !! n = Some i →
        n ∈ ["git"; "svn"]
        ∧ Index.config i = cfg0
        ∧ resolve_git_svn n = Ok (Index.archiver i)
        ∧ Index.data i = cached cfg0 (Index.archiver i) disk_git_svn.
Proof.
  eexists. split; [reflexivity|].
  exact (state_init_indexes resolve_git_svn cfg0 None disk_git_svn _ eq_refl).
Defined.

Lemma ensure_exists_establishes_witness :
  present (State.ensure_exists state_git disk_absent).1 = true
  ∧ creations (State.ensure_exists state_git disk_absent).2 = 1
  ∧ (State.ensure_exists state_git disk_absent).2
    = [LoggerDebug "Wily cache not found, creating."; CacheCreate;
       LoggerDebug "Created wily cache"].
Proof.
  exact (ensure_exists_establishes (CacheLaws0 := disk_laws)
           state_git disk_absent).
Defined.
